(** * Verification of minifylet.cli: the bookmarklet encoder [minify_code]
    and its driver [minify_bookmarklet].

    A Python [str] is modelled as the list of its code points ([list Z]);
    a [bytes] value as the list of its byte values ([list Z], each in
    0..255).  Each [re.sub] of [minify_code] is translated into the
    left-to-right scanner that Python's regex engine runs for that
    pattern.  Fallible steps return [option]: [None] is a raised
    exception. *)

From Stdlib Require Import ZArith Bool String List Lia.
From stdpp Require Import base gmap strings.
Import ListNotations.
Open Scope Z_scope.

(** ** Characters *)

(** A string literal of the source, as its code points. *)
Fixpoint str (s : string) : list Z :=
  match s with
  | EmptyString => []
  | String a t => Z.of_nat (Ascii.nat_of_ascii a) :: str t
  end.

(** [Py_UNICODE_ISSPACE]: the characters matched by the regex class [\s]
    of a [str] pattern and removed by [str.strip()]. *)
Definition is_space (c : Z) : bool :=
  ((9 <=? c) && (c <=? 13)) || ((28 <=? c) && (c <=? 32))
  || (c =? 133) || (c =? 160) || (c =? 5760)
  || ((8192 <=? c) && (c <=? 8202))
  || (c =? 8232) || (c =? 8233) || (c =? 8239) || (c =? 8287)
  || (c =? 12288).

(** ** SAFE_CHARS (cli.py lines 29-31)
    [[chr(i) for i in range(33, 127) if chr(i) not in ["%", " ", "#"]]] *)
Definition SAFE_CHARS : list Z :=
  List.filter (fun c => negb (existsb (Z.eqb c) [37; 32; 35]))
         (map Z.of_nat (seq 33 94)).

(** ** Step 1: [re.sub(r"(?<!:)//.*", "", js_code)]
    [prev] is the character before the scan position (the lookbehind
    sees the original string); [in_comment] is set while [.*] consumes
    the rest of the line ([.] matches anything but a newline). *)
Fixpoint strip_line_comments (in_comment : bool) (prev : option Z)
         (s : list Z) : list Z :=
  match s with
  | [] => []
  | c :: t =>
      if in_comment then
        if c =? 10 then c :: strip_line_comments false (Some c) t
        else strip_line_comments true (Some c) t
      else
        match t with
        | c2 :: t2 =>
            if (c =? 47) && (c2 =? 47)
               && negb (match prev with Some p => p =? 58 | None => false end)
            then strip_line_comments true (Some c2) t2
            else c :: strip_line_comments false (Some c) t
        | [] => [c]
        end
  end.

(** ** Step 2: [re.sub(r"/\*[\s\S]*?\*/", "", minified)]
    [find_close] finds the first [*/] (non-greedy) and returns what
    follows it. *)
Fixpoint find_close (s : list Z) : option (list Z) :=
  match s with
  | [] => None
  | c :: t =>
      match t with
      | c2 :: t2 => if (c =? 42) && (c2 =? 47) then Some t2 else find_close t
      | [] => None
      end
  end.

(** The scan; every round consumes at least one character, so
    [length s] rounds suffice (see [strip_block_comments]). *)
Fixpoint sub_block_comments (fuel : nat) (s : list Z) : list Z :=
  match fuel with
  | O => s
  | S f =>
      match s with
      | [] => []
      | c :: t =>
          match t with
          | c2 :: t2 =>
              if (c =? 47) && (c2 =? 42) then
                match find_close t2 with
                | Some r => sub_block_comments f r
                | None => c :: sub_block_comments f t
                end
              else c :: sub_block_comments f t
          | [] => [c]
          end
      end
  end.

Definition strip_block_comments (s : list Z) : list Z :=
  sub_block_comments (length s) s.

(** ** Step 3: [re.sub(r"\s+", " ", minified)]
    [in_run]: the previous character was whitespace already replaced. *)
Fixpoint collapse_ws (in_run : bool) (s : list Z) : list Z :=
  match s with
  | [] => []
  | c :: t =>
      if is_space c then
        if in_run then collapse_ws true t else 32 :: collapse_ws true t
      else c :: collapse_ws false t
  end.

(** ** Step 4: [re.sub(r"\s*([\{\}\(\)\[\]\=\+\-\*\/\;\:\,\<\>])\s*", r"\1", m)] *)
Definition is_structural (c : Z) : bool :=
  existsb (Z.eqb c) (str "{}()[]=+-*/;:,<>").

Fixpoint skip_ws (s : list Z) : list Z :=
  match s with
  | [] => []
  | c :: t => if is_space c then skip_ws t else s
  end.

(** A match at the head of [s]: greedy [\s*], one structural character
    (backtracking [\s*] cannot help: a whitespace character is never
    structural), greedy [\s*].  Returns the group and the rest. *)
Definition match_structural (s : list Z) : option (Z * list Z) :=
  match skip_ws s with
  | d :: r => if is_structural d then Some (d, skip_ws r) else None
  | [] => None
  end.

Fixpoint sub_structural (fuel : nat) (s : list Z) : list Z :=
  match fuel with
  | O => s
  | S f =>
      match s with
      | [] => []
      | c :: t =>
          match match_structural s with
          | Some (d, r) => d :: sub_structural f r
          | None => c :: sub_structural f t
          end
      end
  end.

Definition strip_structural (s : list Z) : list Z :=
  sub_structural (length s) s.

(** ** [str.strip()], [str.startswith], slicing *)
Definition py_strip (s : list Z) : list Z := rev (skip_ws (rev (skip_ws s))).

Fixpoint starts_with (p s : list Z) : bool :=
  match p, s with
  | [], _ => true
  | a :: p', b :: s' => (a =? b) && starts_with p' s'
  | _ :: _, [] => false
  end.

Definition PREFIX : list Z := str "javascript:".

(** ** [urllib.parse.quote(string, safe=SAFE_CHARS)] (encoding utf-8,
    errors strict) *)

(** [str.encode("utf-8")] of one code point; a surrogate raises
    [UnicodeEncodeError] ([None]). *)
Definition utf8_char (c : Z) : option (list Z) :=
  if c <? 0 then None
  else if c <? 128 then Some [c]
  else if c <? 2048 then Some [192 + c / 64; 128 + c mod 64]
  else if (55296 <=? c) && (c <=? 57343) then None
  else if c <? 65536 then
    Some [224 + c / 4096; 128 + (c / 64) mod 64; 128 + c mod 64]
  else if c <=? 1114111 then
    Some [240 + c / 262144; 128 + (c / 4096) mod 64;
          128 + (c / 64) mod 64; 128 + c mod 64]
  else None.

Fixpoint utf8_encode (s : list Z) : option (list Z) :=
  match s with
  | [] => Some []
  | c :: t =>
      match utf8_char c, utf8_encode t with
      | Some b, Some r => Some (b ++ r)
      | _, _ => None
      end
  end.

(** [_ALWAYS_SAFE]: ASCII letters, digits and [_.-~]. *)
Definition ALWAYS_SAFE : list Z :=
  str "ABCDEFGHIJKLMNOPQRSTUVWXYZabcdefghijklmnopqrstuvwxyz0123456789_.-~".

Definition hex_upper (d : Z) : Z := if d <? 10 then 48 + d else 55 + d.

(** The quoter of [quote_from_bytes]: a safe byte as its character,
    any other as ["%{:02X}"]. *)
Definition quote_byte (safe : list Z) (b : Z) : list Z :=
  if existsb (Z.eqb b) (ALWAYS_SAFE ++ safe) then [b]
  else [37; hex_upper (b / 16); hex_upper (b mod 16)].

Definition quote (s : list Z) (safe : list Z) : option (list Z) :=
  match s with
  | [] => Some []
  | _ =>
      match utf8_encode s with
      | Some bs => Some (flat_map (quote_byte safe) bs)
      | None => None
      end
  end.

(** ** [minify_code(js_code, wrap)] (cli.py lines 57-86) *)
Definition minify_steps (js_code : list Z) : list Z :=
  let m1 := strip_line_comments false None js_code in
  let m2 := strip_block_comments m1 in
  let m3 := collapse_ws false m2 in
  let m4 := strip_structural m3 in
  py_strip m4.

Definition drop_prefix (m : list Z) : list Z :=
  if starts_with PREFIX m then skipn 11 m else m.

Definition wrap_body (wrap : bool) (m : list Z) : list Z :=
  if wrap then str "void((function(){" ++ m ++ str "})())" else m.

(** The string handed to [quote]. *)
Definition quoted_body (js_code : list Z) (wrap : bool) : list Z :=
  py_strip (wrap_body wrap (drop_prefix (minify_steps js_code))).

Definition minify_code (js_code : list Z) (wrap : bool) : option (list Z) :=
  match quote (quoted_body js_code wrap) SAFE_CHARS with
  | Some q => Some (PREFIX ++ q)
  | None => None
  end.

(** ** [urllib.parse.unquote(string)] (encoding utf-8, errors replace) *)

(** A key of [_hextobyte]: one hexadecimal digit, either case. *)
Definition hex_value (c : Z) : option Z :=
  if (48 <=? c) && (c <=? 57) then Some (c - 48)
  else if (65 <=? c) && (c <=? 70) then Some (c - 55)
  else if (97 <=? c) && (c <=? 102) then Some (c - 87)
  else None.

(** [unquote_to_bytes] of an ASCII run (its UTF-8 bytes are its code
    points): [%XX] with two hex digits becomes the byte, any other [%]
    stays. *)
Fixpoint unquote_to_bytes (s : list Z) : list Z :=
  match s with
  | [] => []
  | c :: t =>
      if c =? 37 then
        match t with
        | h1 :: h2 :: t2 =>
            match hex_value h1, hex_value h2 with
            | Some a, Some b => 16 * a + b :: unquote_to_bytes t2
            | _, _ => c :: unquote_to_bytes t
            end
        | _ => c :: unquote_to_bytes t
        end
      else c :: unquote_to_bytes t
  end.

Definition in_range (lo hi b : Z) : bool := (lo <=? b) && (b <=? hi).
Definition is_cont (b : Z) : bool := in_range 128 191 b.
Definition REPLACEMENT : Z := 65533.

(** [bytes.decode("utf-8", "replace")]: each maximal ill-formed
    subpart becomes one U+FFFD. *)
Fixpoint utf8_decode (bs : list Z) : list Z :=
  match bs with
  | [] => []
  | b0 :: r0 =>
    if b0 <? 128 then b0 :: utf8_decode r0
    else if in_range 194 223 b0 then
      match r0 with
      | b1 :: r1 =>
          if is_cont b1 then (b0 - 192) * 64 + (b1 - 128) :: utf8_decode r1
          else REPLACEMENT :: utf8_decode r0
      | [] => [REPLACEMENT]
      end
    else if in_range 224 239 b0 then
      match r0 with
      | b1 :: r1 =>
          if in_range (if b0 =? 224 then 160 else 128)
                      (if b0 =? 237 then 159 else 191) b1 then
            match r1 with
            | b2 :: r2 =>
                if is_cont b2 then
                  (b0 - 224) * 4096 + (b1 - 128) * 64 + (b2 - 128)
                    :: utf8_decode r2
                else REPLACEMENT :: utf8_decode r1
            | [] => [REPLACEMENT]
            end
          else REPLACEMENT :: utf8_decode r0
      | [] => [REPLACEMENT]
      end
    else if in_range 240 244 b0 then
      match r0 with
      | b1 :: r1 =>
          if in_range (if b0 =? 240 then 144 else 128)
                      (if b0 =? 244 then 143 else 191) b1 then
            match r1 with
            | b2 :: r2 =>
                if is_cont b2 then
                  match r2 with
                  | b3 :: r3 =>
                      if is_cont b3 then
                        (b0 - 240) * 262144 + (b1 - 128) * 4096
                          + (b2 - 128) * 64 + (b3 - 128) :: utf8_decode r3
                      else REPLACEMENT :: utf8_decode r2
                  | [] => [REPLACEMENT]
                  end
                else REPLACEMENT :: utf8_decode r1
            | [] => [REPLACEMENT]
            end
          else REPLACEMENT :: utf8_decode r0
      | [] => [REPLACEMENT]
      end
    else REPLACEMENT :: utf8_decode r0
  end.

(** [_asciire.split(string)]: maximal ASCII runs are percent-decoded
    and UTF-8 decoded, other characters are kept.  [run] is the ASCII
    run read so far. *)
Fixpoint unquote_runs (run : list Z) (s : list Z) : list Z :=
  match s with
  | [] => utf8_decode (unquote_to_bytes run)
  | c :: t =>
      if c <? 128 then unquote_runs (run ++ [c]) t
      else utf8_decode (unquote_to_bytes run) ++ c :: unquote_runs [] t
  end.

Definition unquote (s : list Z) : list Z :=
  if existsb (Z.eqb 37) s then unquote_runs [] s else s.

(** ** [minify_bookmarklet] (cli.py lines 125-167) *)

(** The code handed to [check_syntax] (lines 135-138). *)
Definition code_to_check (bookmarklet : list Z) : list Z :=
  if starts_with PREFIX bookmarklet then unquote (skipn 11 bookmarklet)
  else bookmarklet.

(** The files the process sees and what it printed to stdout.  A file's
    content is the text [open(path, "r").read()] returns. *)
Record world := mk_world {
  files : gmap string (list Z);
  stdout : list (list Z)
}.

(** How the call ends: it returns, or [sys.exit(code)] raises
    [SystemExit], which the [except Exception] clause does not catch. *)
Inductive outcome := Returned | Exit (code : Z).

(** [check_syntax] (node --check on a temporary file, removed in its
    [finally]) is the external validator, passed as a function.  The
    clipboard copy and the log lines change neither files nor stdout. *)
Definition minify_bookmarklet (check_syntax : list Z -> bool) (w : world)
    (input_file output_file : string) (to_clipboard check_js wrap : bool)
    : world * outcome :=
  match files w !! input_file with
  | None => (w, Exit 1)
  | Some js_code =>
      match minify_code js_code wrap with
      | None => (w, Exit 1)
      | Some bookmarklet =>
          if check_js && negb (check_syntax (code_to_check bookmarklet))
          then (w, Exit 1)
          else
            (mk_world (<[output_file := bookmarklet]> (files w))
                      (stdout w ++ [bookmarklet]), Returned)
      end
  end.


(** A world where [out.js] exists and [in.js] holds a syntax error. *)
Definition world_example : world :=
  mk_world (<["out.js"%string := str "old"]> (<["in.js"%string := str "bad("]> ∅)) [].

(** * Auxiliary predicates of the statements *)

(** The first character, if any, is not whitespace. *)
Definition hd_ok (l : list Z) : bool :=
  match l with [] => true | c :: _ => negb (is_space c) end.

(** Every [:] is followed by a non-whitespace character or ends the
    string. *)
Fixpoint colon_ok (l : list Z) : bool :=
  match l with
  | [] => true
  | a :: t => (negb (a =? 58) || hd_ok t) && colon_ok t
  end.

(** A character Python can UTF-8 encode: a code point that is not a
    surrogate. *)
Definition is_scalar (c : Z) : bool :=
  (0 <=? c) && (c <=? 1114111) && negb ((55296 <=? c) && (c <=? 57343)).


Definition hd_struct (l : list Z) : bool :=
  match l with [] => false | b :: _ => is_structural b end.

(** No whitespace character is next to a structural character. *)
Fixpoint ws_struct_ok (l : list Z) : bool :=
  match l with
  | [] => true
  | a :: t =>
      negb (is_space a && hd_struct t) && negb (is_structural a && negb (hd_ok t))
      && ws_struct_ok t
  end.

(** How one character [c] of the quoted body appears in the output:
    literally when safe; [#], space and [%] as [%23], [%20], [%25]; any
    other as [%XX] per UTF-8 byte, in uppercase hex. *)
Definition escaped_as (c : Z) (ch : list Z) : Prop :=
  (In c SAFE_CHARS -> ch = [c])
  /\ (c = 35 -> ch = str "%23")
  /\ (c = 32 -> ch = str "%20")
  /\ (c = 37 -> ch = str "%25")
  /\ (~ In c SAFE_CHARS -> exists cb, utf8_char c = Some cb
        /\ ch = flat_map (fun b => [37; hex_upper (b / 16); hex_upper (b mod 16)]) cb).

(** * Lemmas *)

(** ** Whitespace skipping and [str.strip()] *)

Lemma skip_ws_suffix s : exists p, s = p ++ skip_ws s /\ Forall (fun c => is_space c = true) p.
Proof.
  induction s as [|c t [p [Hp Hf]]]; simpl.
  - exists []. auto.
  - destruct (is_space c) eqn:E.
    + exists (c :: p). simpl. rewrite <- Hp. auto.
    + exists []. auto.
Qed.

Lemma skip_ws_length s : (length (skip_ws s) <= length s)%nat.
Proof. induction s as [|c t IH]; simpl; [lia|]. destruct (is_space c); simpl; lia. Qed.

Lemma skip_ws_hd s : hd_ok (skip_ws s) = true.
Proof.
  induction s as [|c t IH]; simpl; auto.
  destruct (is_space c) eqn:E; simpl; auto. rewrite E. reflexivity.
Qed.

Lemma skip_ws_id s : hd_ok s = true -> skip_ws s = s.
Proof.
  destruct s as [|c t]; simpl; auto.
  destruct (is_space c); simpl; [discriminate | auto].
Qed.

Lemma skip_ws_app_ws p s :
  Forall (fun c => is_space c = true) p -> skip_ws (p ++ s) = skip_ws s.
Proof. induction 1 as [|c p Hc _ IH]; simpl; auto. rewrite Hc. exact IH. Qed.

Lemma skip_ws_app a b : hd_ok b = true -> skip_ws (a ++ b) = skip_ws a ++ b.
Proof.
  intros Hb. induction a as [|c a IH]; simpl.
  - apply skip_ws_id; auto.
  - destruct (is_space c); auto.
Qed.

Lemma hd_ok_app a b : a <> [] -> hd_ok (a ++ b) = hd_ok a.
Proof. destruct a; simpl; congruence. Qed.

Lemma py_strip_hd s : hd_ok (py_strip s) = true.
Proof.
  unfold py_strip.
  destruct (skip_ws_suffix (rev (skip_ws s))) as [p [Hp _]].
  set (v := skip_ws (rev (skip_ws s))) in *.
  destruct v as [|x v'] eqn:Ev; [reflexivity|].
  assert (H : hd_ok (rev (rev (skip_ws s))) = true)
    by (rewrite rev_involutive; apply skip_ws_hd).
  rewrite Hp, rev_app_distr in H.
  rewrite hd_ok_app in H; [exact H|].
  intros Hn. apply (f_equal (@length Z)) in Hn. rewrite length_rev in Hn.
  simpl in Hn. discriminate.
Qed.

Lemma py_strip_last s : hd_ok (rev (py_strip s)) = true.
Proof. unfold py_strip. rewrite rev_involutive. apply skip_ws_hd. Qed.

Lemma py_strip_id s : hd_ok s = true -> hd_ok (rev s) = true -> py_strip s = s.
Proof.
  intros H1 H2. unfold py_strip.
  rewrite (skip_ws_id s H1), (skip_ws_id _ H2). apply rev_involutive.
Qed.

Lemma py_strip_idem s : py_strip (py_strip s) = py_strip s.
Proof. apply py_strip_id; [apply py_strip_hd | apply py_strip_last]. Qed.

(** [py_strip s] is an infix of [s]. *)
Lemma py_strip_infix s : exists p q, s = p ++ py_strip s ++ q.
Proof.
  destruct (skip_ws_suffix s) as [p [Hp _]].
  destruct (skip_ws_suffix (rev (skip_ws s))) as [q [Hq _]].
  exists p, (rev q). unfold py_strip.
  rewrite <- rev_app_distr, <- Hq, rev_involutive. exact Hp.
Qed.

(** ** [starts_with] *)

Lemma starts_with_app p s : starts_with p (p ++ s) = true.
Proof. induction p as [|a p IH]; simpl; auto. rewrite Z.eqb_refl. exact IH. Qed.

Lemma starts_with_true p s : starts_with p s = true -> s = p ++ skipn (length p) s.
Proof.
  revert s. induction p as [|a p IH]; intros [|b s]; simpl; auto; try discriminate.
  intros H. apply andb_prop in H as [H1 H2]. apply Z.eqb_eq in H1. subst.
  f_equal. apply IH. exact H2.
Qed.

(** ** Fuel of the two scanners *)

Lemma find_close_shorter t r : find_close t = Some r -> (length r < length t)%nat.
Proof.
  induction t as [|c t IH]; simpl; [discriminate|].
  destruct t as [|c2 t2]; [discriminate|].
  destruct ((c =? 42) && (c2 =? 47)).
  - intros [= <-]. simpl. lia.
  - intros H. apply IH in H. simpl in *. lia.
Qed.

Lemma sub_block_comments_fuel f1 f2 s :
  (length s <= f1)%nat -> (length s <= f2)%nat ->
  sub_block_comments f1 s = sub_block_comments f2 s.
Proof.
  revert f2 s. induction f1 as [|f IH]; intros f2 s H1 H2.
  - destruct s; simpl in H1; [|lia]. destruct f2; reflexivity.
  - destruct f2 as [|g]; [destruct s; simpl in H2; [reflexivity|lia]|].
    destruct s as [|c t]; [reflexivity|]. simpl in H1, H2 |- *.
    destruct t as [|c2 t2]; [reflexivity|].
    destruct ((c =? 47) && (c2 =? 42)).
    + destruct (find_close t2) as [r|] eqn:E.
      * apply find_close_shorter in E. simpl in *. apply IH; lia.
      * f_equal. apply IH; simpl in *; lia.
    + f_equal. apply IH; simpl in *; lia.
Qed.

Lemma strip_block_comments_not_slash c t :
  c <> 47 -> strip_block_comments (c :: t) = c :: strip_block_comments t.
Proof.
  intros Hc. unfold strip_block_comments. simpl.
  destruct t as [|c2 t2]; [reflexivity|].
  replace (c =? 47) with false by (symmetry; apply Z.eqb_neq; exact Hc).
  reflexivity.
Qed.

Lemma match_structural_shorter s d r :
  match_structural s = Some (d, r) -> (length r < length s)%nat.
Proof.
  unfold match_structural. intros H.
  pose proof (skip_ws_length s) as Hs.
  destruct (skip_ws s) as [|d' r'] eqn:E; [discriminate|].
  destruct (is_structural d'); [|discriminate]. injection H as <- <-.
  pose proof (skip_ws_length r'). simpl in Hs. lia.
Qed.

Lemma sub_structural_fuel f1 f2 s :
  (length s <= f1)%nat -> (length s <= f2)%nat ->
  sub_structural f1 s = sub_structural f2 s.
Proof.
  revert f2 s. induction f1 as [|f IH]; intros f2 s H1 H2.
  - destruct s; simpl in H1; [|lia]. destruct f2; reflexivity.
  - destruct f2 as [|g]; [destruct s; simpl in H2; [reflexivity|lia]|].
    destruct s as [|c t]; [reflexivity|]. cbn [sub_structural].
    destruct (match_structural (c :: t)) as [[d r]|] eqn:E.
    + apply match_structural_shorter in E. f_equal. apply IH; lia.
    + f_equal. apply IH; simpl in *; lia.
Qed.

(** The scan of step 4, one round at a time. *)
Lemma strip_structural_eq c t :
  strip_structural (c :: t) =
  match match_structural (c :: t) with
  | Some (d, r) => d :: strip_structural r
  | None => c :: strip_structural t
  end.
Proof.
  unfold strip_structural at 1. cbn [length sub_structural].
  destruct (match_structural (c :: t)) as [[d r]|] eqn:E.
  - apply match_structural_shorter in E. f_equal.
    apply sub_structural_fuel; simpl in *; lia.
  - reflexivity.
Qed.

Lemma match_structural_hd c t :
  is_space c = false ->
  match_structural (c :: t) =
  if is_structural c then Some (c, skip_ws t) else None.
Proof. intros Hc. unfold match_structural. simpl. rewrite Hc. reflexivity. Qed.

(** A non-whitespace first character is kept by step 4. *)
Lemma strip_structural_hd c t :
  is_space c = false -> exists u, strip_structural (c :: t) = c :: u.
Proof.
  intros Hc. rewrite strip_structural_eq, match_structural_hd by exact Hc.
  destruct (is_structural c); eauto.
Qed.

Lemma strip_structural_hd_ok s : hd_ok s = true -> hd_ok (strip_structural s) = true.
Proof.
  destruct s as [|c t]; [reflexivity|]. simpl. intros H.
  destruct (strip_structural_hd c t) as [u ->]; [now destruct (is_space c)|].
  exact H.
Qed.

(** Leading whitespace is either kept or eaten by the first match. *)
Lemma strip_structural_skip s :
  exists p, strip_structural s = p ++ strip_structural (skip_ws s)
            /\ Forall (fun c => is_space c = true) p.
Proof.
  induction s as [s IH] using (induction_ltof1 _ (@length Z)).
  destruct s as [|c t]; [exists []; auto|].
  simpl skip_ws. destruct (is_space c) eqn:Hc; [|exists []; auto].
  rewrite strip_structural_eq.
  destruct (match_structural (c :: t)) as [[d r]|] eqn:E.
  - exists []. split; [|constructor].
    destruct (skip_ws t) as [|c' t'] eqn:Et.
    + unfold match_structural in E. simpl in E. rewrite Hc, Et in E. discriminate.
    + rewrite strip_structural_eq. rewrite <- Et.
      unfold match_structural in E |- *. simpl in E. rewrite Hc in E.
      assert (Hk : skip_ws (skip_ws t) = skip_ws t)
        by (apply skip_ws_id, skip_ws_hd).
      rewrite Hk, E. reflexivity.
  - destruct (IH t) as [p [Hp Hf]]; [unfold ltof; simpl; lia|].
    exists (c :: p). rewrite Hp. split; [reflexivity|]. constructor; auto.
Qed.

Lemma colon_ok_strip_structural s : colon_ok (strip_structural s) = true.
Proof.
  induction s as [s IH] using (induction_ltof1 _ (@length Z)).
  destruct s as [|c t]; [reflexivity|].
  rewrite strip_structural_eq.
  destruct (match_structural (c :: t)) as [[d r]|] eqn:E.
  - simpl. rewrite IH by (apply match_structural_shorter in E; exact E).
    rewrite andb_true_r. apply orb_true_intro. right.
    apply strip_structural_hd_ok.
    unfold match_structural in E.
    destruct (skip_ws (c :: t)); [discriminate|].
    destruct (is_structural z); [|discriminate]. injection E as _ <-.
    apply skip_ws_hd.
  - simpl. rewrite IH by (unfold ltof; simpl; lia).
    rewrite andb_true_r. apply orb_true_intro. left.
    destruct (Z.eqb_spec c 58) as [->|]; [|reflexivity].
    unfold match_structural in E. simpl in E. discriminate.
Qed.

Lemma colon_ok_app_l a b : colon_ok (a ++ b) = true -> colon_ok a = true.
Proof.
  induction a as [|x a IH]; simpl; auto.
  intros H. apply andb_prop in H as [H1 H2]. rewrite (IH H2), andb_true_r.
  destruct a; simpl in *; [now rewrite orb_true_r|exact H1].
Qed.

Lemma colon_ok_app_r a b : colon_ok (a ++ b) = true -> colon_ok b = true.
Proof.
  induction a as [|x a IH]; simpl; auto.
  intros H. apply andb_prop in H as [_ H2]. auto.
Qed.

(** ** The steps on a [javascript:] prefix *)

Lemma strip_line_comments_not_slash prev c t :
  c <> 47 ->
  strip_line_comments false prev (c :: t)
  = c :: strip_line_comments false (Some c) t.
Proof.
  intros Hc. simpl. destruct t as [|c2 t2]; [reflexivity|].
  replace (c =? 47) with false by (symmetry; apply Z.eqb_neq; exact Hc).
  reflexivity.
Qed.

(** After a [:], the lookbehind forbids a match at the scan position; at
    the start of the string, a match needs [//] there. *)
Lemma strip_line_comments_after_colon X :
  starts_with (str "//") X = false ->
  strip_line_comments false (Some 58) X = strip_line_comments false None X.
Proof.
  destruct X as [|c [|c2 t2]]; try reflexivity.
  intros H. change (str "//") with [47; 47] in H. cbn [starts_with] in H.
  rewrite andb_true_r, (Z.eqb_sym 47 c), (Z.eqb_sym 47 c2) in H.
  cbn [strip_line_comments]. rewrite H. reflexivity.
Qed.

Lemma collapse_ws_not_space b c t :
  is_space c = false -> collapse_ws b (c :: t) = c :: collapse_ws false t.
Proof. intros Hc. simpl. rewrite Hc. reflexivity. Qed.

Lemma strip_structural_plain c t :
  is_space c = false -> is_structural c = false ->
  strip_structural (c :: t) = c :: strip_structural t.
Proof.
  intros H1 H2. rewrite strip_structural_eq, match_structural_hd, H2 by exact H1.
  reflexivity.
Qed.

Lemma strip_structural_colon t :
  strip_structural (58 :: t) = 58 :: strip_structural (skip_ws t).
Proof. rewrite strip_structural_eq, match_structural_hd by reflexivity. reflexivity. Qed.

Lemma py_strip_ws p s :
  Forall (fun c => is_space c = true) p -> py_strip (p ++ s) = py_strip s.
Proof. intros H. unfold py_strip. rewrite skip_ws_app_ws by exact H. reflexivity. Qed.

Lemma py_strip_app_l a s :
  a <> [] -> hd_ok a = true -> hd_ok (rev a) = true -> hd_ok s = true ->
  py_strip (a ++ s) = a ++ py_strip s.
Proof.
  intros Ha H1 H2 Hs. unfold py_strip.
  rewrite (skip_ws_id (a ++ s)) by (rewrite hd_ok_app; auto).
  rewrite (skip_ws_id s Hs).
  rewrite rev_app_distr, skip_ws_app by exact H2.
  rewrite rev_app_distr, rev_involutive. reflexivity.
Qed.

Lemma PREFIX_eq : PREFIX = [106; 97; 118; 97; 115; 99; 114; 105; 112; 116; 58].
Proof. reflexivity. Qed.

Lemma minify_steps_prefix X :
  starts_with (str "//") X = false ->
  minify_steps (PREFIX ++ X) = PREFIX ++ minify_steps X.
Proof.
  intros HX. unfold minify_steps. rewrite PREFIX_eq. cbn [app].
  rewrite !strip_line_comments_not_slash by lia.
  rewrite strip_line_comments_after_colon by exact HX.
  rewrite !strip_block_comments_not_slash by lia.
  rewrite !collapse_ws_not_space by reflexivity.
  rewrite !strip_structural_plain by reflexivity.
  rewrite strip_structural_colon.
  set (Y := collapse_ws false (strip_block_comments (strip_line_comments false None X))).
  destruct (strip_structural_skip Y) as [p [Hp Hf]]. rewrite Hp, py_strip_ws by exact Hf.
  set (Z := strip_structural (skip_ws Y)).
  assert (HZ : hd_ok Z = true) by (apply strip_structural_hd_ok, skip_ws_hd).
  change (106 :: 97 :: 118 :: 97 :: 115 :: 99 :: 114 :: 105 :: 112 :: 116 :: 58 :: Z)
    with ([106; 97; 118; 97; 115; 99; 114; 105; 112; 116; 58] ++ Z).
  apply py_strip_app_l; try reflexivity; [discriminate | exact HZ].
Qed.

(** ** UTF-8 *)

(** Decide the comparisons of the goal that the context settles. *)
Ltac zsimpl :=
  repeat (match goal with
  | |- context [?a <? ?b] =>
      first [ replace (a <? b) with true by (symmetry; apply Z.ltb_lt; lia)
            | replace (a <? b) with false by (symmetry; apply Z.ltb_ge; lia) ]
  | |- context [?a <=? ?b] =>
      first [ replace (a <=? b) with true by (symmetry; apply Z.leb_le; lia)
            | replace (a <=? b) with false by (symmetry; apply Z.leb_gt; lia) ]
  | |- context [?a =? ?b] =>
      first [ replace (a =? b) with true by (symmetry; apply Z.eqb_eq; lia)
            | replace (a =? b) with false by (symmetry; apply Z.eqb_neq; lia) ]
  end; cbn [andb orb negb]).

Lemma utf8_decode_1 b0 rest :
  0 <= b0 < 128 -> utf8_decode (b0 :: rest) = b0 :: utf8_decode rest.
Proof. intros H. cbn [utf8_decode]. zsimpl. reflexivity. Qed.

Lemma utf8_decode_2 b0 b1 rest :
  194 <= b0 <= 223 -> 128 <= b1 <= 191 ->
  utf8_decode (b0 :: b1 :: rest) = (b0 - 192) * 64 + (b1 - 128) :: utf8_decode rest.
Proof. intros H0 H1. cbn [utf8_decode]. unfold is_cont, in_range. zsimpl. reflexivity. Qed.

Lemma utf8_decode_3 b0 b1 b2 rest :
  224 <= b0 <= 239 ->
  (if b0 =? 224 then 160 else 128) <= b1 <= (if b0 =? 237 then 159 else 191) ->
  128 <= b2 <= 191 ->
  utf8_decode (b0 :: b1 :: b2 :: rest)
  = (b0 - 224) * 4096 + (b1 - 128) * 64 + (b2 - 128) :: utf8_decode rest.
Proof.
  intros H0 H1 H2. cbn [utf8_decode]. unfold is_cont, in_range.
  destruct (Z.eqb_spec b0 224); destruct (Z.eqb_spec b0 237); subst; try lia;
    zsimpl; reflexivity.
Qed.

Lemma utf8_decode_4 b0 b1 b2 b3 rest :
  240 <= b0 <= 244 ->
  (if b0 =? 240 then 144 else 128) <= b1 <= (if b0 =? 244 then 143 else 191) ->
  128 <= b2 <= 191 -> 128 <= b3 <= 191 ->
  utf8_decode (b0 :: b1 :: b2 :: b3 :: rest)
  = (b0 - 240) * 262144 + (b1 - 128) * 4096 + (b2 - 128) * 64 + (b3 - 128)
    :: utf8_decode rest.
Proof.
  intros H0 H1 H2 H3. cbn [utf8_decode]. unfold is_cont, in_range.
  destruct (Z.eqb_spec b0 240); destruct (Z.eqb_spec b0 244); subst; try lia;
    zsimpl; reflexivity.
Qed.

Lemma utf8_char_decode c bs rest :
  utf8_char c = Some bs -> utf8_decode (bs ++ rest) = c :: utf8_decode rest.
Proof.
  unfold utf8_char. intros H.
  destruct (Z.ltb_spec c 0); [discriminate|].
  destruct (Z.ltb_spec c 128).
  { injection H as <-. apply utf8_decode_1. lia. }
  destruct (Z.ltb_spec c 2048).
  { injection H as <-. cbn [app]. rewrite utf8_decode_2
      by (Z.div_mod_to_equations; lia).
    f_equal. Z.div_mod_to_equations. lia. }
  destruct (Z.leb_spec 55296 c), (Z.leb_spec c 57343); cbn [andb] in H;
    try discriminate.
  all: destruct (Z.ltb_spec c 65536);
    [ injection H as <-; cbn [app]; rewrite utf8_decode_3;
      [ f_equal; Z.div_mod_to_equations; lia
      | Z.div_mod_to_equations; lia
      | destruct (Z.eqb_spec (224 + c / 4096) 224), (Z.eqb_spec (224 + c / 4096) 237);
        Z.div_mod_to_equations; lia
      | Z.div_mod_to_equations; lia ]
    | destruct (Z.leb_spec c 1114111); [|discriminate];
      injection H as <-; cbn [app]; rewrite utf8_decode_4;
      [ f_equal; Z.div_mod_to_equations; lia
      | Z.div_mod_to_equations; lia
      | destruct (Z.eqb_spec (240 + c / 262144) 240), (Z.eqb_spec (240 + c / 262144) 244);
        Z.div_mod_to_equations; lia
      | Z.div_mod_to_equations; lia
      | Z.div_mod_to_equations; lia ] ].
Qed.

Lemma utf8_char_bytes c bs :
  utf8_char c = Some bs ->
  (0 <= c < 128 /\ bs = [c]) \/ (128 <= c /\ Forall (fun b => 128 <= b < 256) bs).
Proof.
  unfold utf8_char. intros H.
  destruct (Z.ltb_spec c 0); [discriminate|].
  destruct (Z.ltb_spec c 128); [injection H as <-; left; auto|].
  right. split; [lia|].
  destruct (Z.ltb_spec c 2048);
    [injection H as <-; repeat constructor; Z.div_mod_to_equations; lia|].
  destruct ((55296 <=? c) && (c <=? 57343)); [discriminate|].
  destruct (Z.ltb_spec c 65536);
    [injection H as <-; repeat constructor; Z.div_mod_to_equations; lia|].
  destruct (Z.leb_spec c 1114111); [|discriminate].
  injection H as <-; repeat constructor; Z.div_mod_to_equations; lia.
Qed.

Lemma utf8_encode_decode x bs : utf8_encode x = Some bs -> utf8_decode bs = x.
Proof.
  revert bs. induction x as [|c x IH]; intros bs H; simpl in H.
  - injection H as <-. reflexivity.
  - destruct (utf8_char c) as [b|] eqn:E1; [|discriminate].
    destruct (utf8_encode x) as [r|] eqn:E2; [|discriminate].
    injection H as <-. rewrite (utf8_char_decode c b r E1). f_equal. auto.
Qed.

Lemma utf8_encode_bytes x bs :
  utf8_encode x = Some bs -> Forall (fun b => 0 <= b < 256) bs.
Proof.
  revert bs. induction x as [|c x IH]; intros bs H; simpl in H.
  - injection H as <-. constructor.
  - destruct (utf8_char c) as [b|] eqn:E1; [|discriminate].
    destruct (utf8_encode x) as [r|] eqn:E2; [|discriminate].
    injection H as <-. apply Forall_app. split; [|auto].
    destruct (utf8_char_bytes c b E1) as [[Hc ->] | [_ Hb]].
    + repeat constructor; lia.
    + eapply Forall_impl; [exact Hb|]. simpl. lia.
Qed.

Lemma utf8_decode_ascii l : Forall (fun c => 0 <= c < 128) l -> utf8_decode l = l.
Proof.
  induction 1 as [|c l Hc _ IH]; [reflexivity|].
  rewrite utf8_decode_1 by exact Hc. f_equal. exact IH.
Qed.

(** ** Percent-encoding *)

Lemma existsb_Zeq_In b l : existsb (Z.eqb b) l = true <-> In b l.
Proof.
  rewrite existsb_exists. split.
  - intros [x [Hx E]]. apply Z.eqb_eq in E. subst. exact Hx.
  - intros H. exists b. split; [exact H | apply Z.eqb_refl].
Qed.

Lemma SAFE_CHARS_In c :
  In c SAFE_CHARS <-> 33 <= c <= 126 /\ c <> 37 /\ c <> 32 /\ c <> 35.
Proof.
  unfold SAFE_CHARS. rewrite filter_In, in_map_iff. split.
  - intros [[n [<- Hn]] Hneg]. apply in_seq in Hn. simpl in Hneg.
    destruct (Z.eqb_spec (Z.of_nat n) 37), (Z.eqb_spec (Z.of_nat n) 32),
      (Z.eqb_spec (Z.of_nat n) 35); simpl in Hneg; try discriminate.
    lia.
  - intros [H1 [H2 [H3 H4]]]. split.
    + exists (Z.to_nat c). split; [lia|]. apply in_seq. lia.
    + simpl. destruct (Z.eqb_spec c 37), (Z.eqb_spec c 32), (Z.eqb_spec c 35);
        try lia; reflexivity.
Qed.

Lemma ALWAYS_SAFE_incl b : In b ALWAYS_SAFE -> In b SAFE_CHARS.
Proof.
  intros H. apply existsb_Zeq_In.
  assert (Hall : forallb (fun x => existsb (Z.eqb x) SAFE_CHARS) ALWAYS_SAFE = true)
    by reflexivity.
  rewrite forallb_forall in Hall. exact (Hall b H).
Qed.

Lemma quote_byte_safe b : In b SAFE_CHARS -> quote_byte SAFE_CHARS b = [b].
Proof.
  intros H. unfold quote_byte.
  replace (existsb (Z.eqb b) (ALWAYS_SAFE ++ SAFE_CHARS)) with true; [reflexivity|].
  symmetry. apply existsb_Zeq_In, in_or_app. right. exact H.
Qed.

Lemma quote_byte_unsafe b :
  ~ In b SAFE_CHARS ->
  quote_byte SAFE_CHARS b = [37; hex_upper (b / 16); hex_upper (b mod 16)].
Proof.
  intros H. unfold quote_byte.
  destruct (existsb (Z.eqb b) (ALWAYS_SAFE ++ SAFE_CHARS)) eqn:E; [|reflexivity].
  apply existsb_Zeq_In, in_app_or in E.
  destruct E as [E|E]; [apply ALWAYS_SAFE_incl in E|]; contradiction.
Qed.

Lemma hex_upper_value d : 0 <= d < 16 -> hex_value (hex_upper d) = Some d.
Proof.
  intros H. unfold hex_upper, hex_value.
  destruct (Z.ltb_spec d 10); zsimpl; f_equal; lia.
Qed.

Lemma hex_upper_ascii d : 0 <= d < 16 -> 0 <= hex_upper d < 128.
Proof. intros H. unfold hex_upper. destruct (Z.ltb_spec d 10); lia. Qed.

Lemma quote_byte_ascii b :
  0 <= b < 256 -> Forall (fun c => 0 <= c < 128) (quote_byte SAFE_CHARS b).
Proof.
  intros Hb. destruct (In_dec Z.eq_dec b SAFE_CHARS) as [H|H].
  - rewrite quote_byte_safe by exact H. apply SAFE_CHARS_In in H.
    repeat constructor; lia.
  - rewrite quote_byte_unsafe by exact H.
    repeat constructor; try lia; apply hex_upper_ascii; Z.div_mod_to_equations; lia.
Qed.

Lemma unquote_to_bytes_quote_byte b l :
  0 <= b < 256 ->
  unquote_to_bytes (quote_byte SAFE_CHARS b ++ l) = b :: unquote_to_bytes l.
Proof.
  intros Hb. destruct (In_dec Z.eq_dec b SAFE_CHARS) as [H|H].
  - rewrite quote_byte_safe by exact H. apply SAFE_CHARS_In in H.
    simpl. replace (b =? 37) with false by (symmetry; apply Z.eqb_neq; lia).
    reflexivity.
  - rewrite quote_byte_unsafe by exact H. simpl.
    rewrite !hex_upper_value by (Z.div_mod_to_equations; lia).
    f_equal. Z.div_mod_to_equations. lia.
Qed.

Lemma unquote_to_bytes_quote bs :
  Forall (fun b => 0 <= b < 256) bs ->
  unquote_to_bytes (flat_map (quote_byte SAFE_CHARS) bs) = bs.
Proof.
  induction 1 as [|b bs Hb _ IH]; [reflexivity|].
  simpl. rewrite unquote_to_bytes_quote_byte by exact Hb. f_equal. exact IH.
Qed.

Lemma unquote_to_bytes_no_pct l : ~ In 37 l -> unquote_to_bytes l = l.
Proof.
  induction l as [|c l IH]; intros H; [reflexivity|]. simpl.
  replace (c =? 37) with false
    by (symmetry; apply Z.eqb_neq; intros ->; apply H; left; reflexivity).
  f_equal. apply IH. intros H'. apply H. right. exact H'.
Qed.

Lemma unquote_runs_ascii run l :
  Forall (fun c => 0 <= c < 128) l ->
  unquote_runs run l = utf8_decode (unquote_to_bytes (run ++ l)).
Proof.
  intros H. revert run. induction H as [|c l Hc _ IH]; intros run.
  - rewrite app_nil_r. reflexivity.
  - simpl. replace (c <? 128) with true by (symmetry; apply Z.ltb_lt; lia).
    rewrite IH, <- app_assoc. reflexivity.
Qed.

(** Percent-decoding inverts [quote] with the safe set of cli.py. *)
Lemma unquote_quote x q : quote x SAFE_CHARS = Some q -> unquote q = x.
Proof.
  unfold quote. destruct x as [|c x'] eqn:Ex; [intros [= <-]; reflexivity|].
  rewrite <- Ex. destruct (utf8_encode x) as [bs|] eqn:E; [|discriminate].
  intros [= <-].
  pose proof (utf8_encode_bytes x bs E) as Hbs.
  assert (Hq : Forall (fun c => 0 <= c < 128) (flat_map (quote_byte SAFE_CHARS) bs)).
  { apply Forall_flat_map. eapply Forall_impl; [exact Hbs|].
    intros b Hb. apply quote_byte_ascii. exact Hb. }
  unfold unquote. destruct (existsb (Z.eqb 37) _) eqn:Hp.
  - rewrite unquote_runs_ascii by exact Hq. simpl.
    rewrite unquote_to_bytes_quote by exact Hbs.
    apply utf8_encode_decode. exact E.
  - assert (Hn : ~ In 37 (flat_map (quote_byte SAFE_CHARS) bs)).
    { intros Hin. apply existsb_Zeq_In in Hin. congruence. }
    pose proof (unquote_to_bytes_quote bs Hbs) as Hu.
    rewrite (unquote_to_bytes_no_pct _ Hn) in Hu. rewrite Hu.
    rewrite <- (utf8_encode_decode x bs E).
    symmetry. apply utf8_decode_ascii. rewrite <- Hu. exact Hq.
Qed.

(** [quote] works character by character. *)
Lemma quote_chunks x bs :
  utf8_encode x = Some bs ->
  exists chunks, flat_map (quote_byte SAFE_CHARS) bs = concat chunks
    /\ Forall2 (fun c ch => exists cb, utf8_char c = Some cb
                  /\ ch = flat_map (quote_byte SAFE_CHARS) cb) x chunks.
Proof.
  revert bs. induction x as [|c x IH]; intros bs H; simpl in H.
  - injection H as <-. exists []. auto.
  - destruct (utf8_char c) as [cb|] eqn:E1; [|discriminate].
    destruct (utf8_encode x) as [r|] eqn:E2; [|discriminate].
    injection H as <-. destruct (IH r eq_refl) as [chunks [Hc Hf]].
    exists (flat_map (quote_byte SAFE_CHARS) cb :: chunks). split.
    + rewrite flat_map_app, Hc. reflexivity.
    + constructor; eauto.
Qed.

(** A byte of a character outside the safe set is percent-escaped. *)
Lemma utf8_char_unsafe_bytes c cb :
  utf8_char c = Some cb -> ~ In c SAFE_CHARS -> Forall (fun b => ~ In b SAFE_CHARS) cb.
Proof.
  intros E Hc. destruct (utf8_char_bytes c cb E) as [[_ ->] | [_ Hb]].
  - repeat constructor. exact Hc.
  - eapply Forall_impl; [exact Hb|]. simpl. intros b Hb' Hin.
    apply SAFE_CHARS_In in Hin. lia.
Qed.

Lemma flat_map_quote_unsafe cb :
  Forall (fun b => ~ In b SAFE_CHARS) cb ->
  flat_map (quote_byte SAFE_CHARS) cb
  = flat_map (fun b => [37; hex_upper (b / 16); hex_upper (b mod 16)]) cb.
Proof.
  induction 1 as [|b cb Hb _ IH]; [reflexivity|].
  simpl. rewrite quote_byte_unsafe by exact Hb. rewrite IH. reflexivity.
Qed.

(** ** The characters of the body *)

Definition scalar_str (s : list Z) : Prop := Forall (fun c => is_scalar c = true) s.

Lemma find_close_suffix t r : find_close t = Some r -> exists p, t = p ++ r.
Proof.
  induction t as [|c t IH]; simpl; [discriminate|].
  destruct t as [|c2 t2]; [discriminate|].
  destruct ((c =? 42) && (c2 =? 47)).
  - intros [= <-]. exists [c; c2]. reflexivity.
  - intros H. destruct (IH H) as [p ->]. exists (c :: p). reflexivity.
Qed.

Lemma scalar_str_app a b : scalar_str (a ++ b) <-> scalar_str a /\ scalar_str b.
Proof. apply Forall_app. Qed.

Lemma strip_line_comments_scalar b prev s :
  scalar_str s -> scalar_str (strip_line_comments b prev s).
Proof.
  revert b prev. induction s as [s IH] using (induction_ltof1 _ (@length Z)).
  intros b prev Hs. destruct s as [|c t]; [constructor|].
  inversion Hs as [|? ? Hc Ht]; subst. simpl. destruct b.
  - destruct (c =? 10); [constructor; [exact Hc|]|];
      apply IH; auto; unfold ltof; simpl; lia.
  - destruct t as [|c2 t2]; [repeat constructor; exact Hc|].
    inversion Ht; subst.
    destruct (_ && _ && _);
      [apply IH; auto | constructor; [exact Hc | apply IH; auto]];
      unfold ltof; simpl; lia.
Qed.

Lemma sub_block_comments_scalar f s : scalar_str s -> scalar_str (sub_block_comments f s).
Proof.
  revert s. induction f as [|f IH]; intros s Hs; [exact Hs|].
  destruct s as [|c t]; [constructor|]. inversion Hs as [|? ? Hc Ht]; subst.
  simpl. destruct t as [|c2 t2]; [exact Hs|].
  destruct (_ && _).
  - destruct (find_close t2) as [r|] eqn:E.
    + apply IH. destruct (find_close_suffix _ _ E) as [p ->].
      inversion Ht; subst. apply scalar_str_app in H2. tauto.
    + constructor; [exact Hc | apply IH; exact Ht].
  - constructor; [exact Hc | apply IH; exact Ht].
Qed.

Lemma collapse_ws_scalar b s : scalar_str s -> scalar_str (collapse_ws b s).
Proof.
  revert b. induction s as [|c t IH]; intros b Hs; [constructor|].
  inversion Hs as [|? ? Hc Ht]; subst. simpl.
  destruct (is_space c); [destruct b|]; try constructor; try reflexivity;
    try exact Hc; apply IH; exact Ht.
Qed.

Lemma skip_ws_scalar s : scalar_str s -> scalar_str (skip_ws s).
Proof.
  intros H. destruct (skip_ws_suffix s) as [p [Hp _]].
  rewrite Hp in H. apply scalar_str_app in H. tauto.
Qed.

Lemma sub_structural_scalar f s : scalar_str s -> scalar_str (sub_structural f s).
Proof.
  revert s. induction f as [|f IH]; intros s Hs; [exact Hs|].
  destruct s as [|c t]; [constructor|]. cbn [sub_structural].
  destruct (match_structural (c :: t)) as [[d r]|] eqn:E.
  - unfold match_structural in E.
    pose proof (skip_ws_scalar _ Hs) as Hk.
    destruct (skip_ws (c :: t)) as [|d' r']; [discriminate|].
    destruct (is_structural d'); [|discriminate]. injection E as <- <-.
    inversion Hk as [|? ? Hd Hr]; subst. constructor; [exact Hd|].
    apply IH, skip_ws_scalar. exact Hr.
  - inversion Hs as [|? ? Hc Ht]; subst. constructor; [exact Hc | apply IH; exact Ht].
Qed.

Lemma py_strip_scalar s : scalar_str s -> scalar_str (py_strip s).
Proof.
  intros H. destruct (py_strip_infix s) as [p [q Hs]]. rewrite Hs in H.
  apply scalar_str_app in H as [_ H]. apply scalar_str_app in H. tauto.
Qed.

Lemma quoted_body_scalar s w : scalar_str s -> scalar_str (quoted_body s w).
Proof.
  intros H. unfold quoted_body. apply py_strip_scalar.
  assert (Hs : scalar_str (minify_steps s)).
  { unfold minify_steps, strip_block_comments, strip_structural.
    apply py_strip_scalar, sub_structural_scalar, collapse_ws_scalar,
      sub_block_comments_scalar, strip_line_comments_scalar. exact H. }
  assert (Hm : scalar_str (drop_prefix (minify_steps s))).
  { unfold drop_prefix. destruct (starts_with _ _); [|exact Hs].
    rewrite <- (firstn_skipn 11 (minify_steps s)) in Hs.
    apply scalar_str_app in Hs. tauto. }
  destruct w; [|exact Hm]. cbn [wrap_body].
  apply scalar_str_app. split; [repeat constructor|].
  apply scalar_str_app. split; [exact Hm | repeat constructor].
Qed.

Lemma utf8_char_scalar c : is_scalar c = true -> exists cb, utf8_char c = Some cb.
Proof.
  unfold is_scalar, utf8_char. intros H.
  destruct (Z.leb_spec 0 c), (Z.leb_spec c 1114111); cbn [andb] in H;
    try discriminate.
  apply negb_true_iff in H. rewrite H.
  destruct (Z.ltb_spec c 0); [lia|].
  destruct (Z.ltb_spec c 128); [eauto|].
  destruct (Z.ltb_spec c 2048); [eauto|].
  destruct (Z.ltb_spec c 65536); [eauto|].
  zsimpl. eauto.
Qed.

Lemma utf8_encode_scalar s : scalar_str s -> exists bs, utf8_encode s = Some bs.
Proof.
  induction 1 as [|c s Hc _ [bs IH]]; [eauto|].
  destruct (utf8_char_scalar c Hc) as [cb E]. simpl. rewrite E, IH. eauto.
Qed.

(** ** The decoded body *)

Lemma code_to_check_prefix q : code_to_check (PREFIX ++ q) = unquote q.
Proof. unfold code_to_check. rewrite starts_with_app, PREFIX_eq. reflexivity. Qed.

Lemma colon_ok_minify_steps s : colon_ok (minify_steps s) = true.
Proof.
  unfold minify_steps.
  set (z := strip_structural _).
  assert (Hz : colon_ok z = true) by apply colon_ok_strip_structural.
  destruct (py_strip_infix z) as [p [q Hpq]]. rewrite Hpq in Hz.
  apply colon_ok_app_r, colon_ok_app_l in Hz. exact Hz.
Qed.

(** The body after the prefix removal has no surrounding whitespace. *)
Lemma drop_prefix_stripped s :
  py_strip (drop_prefix (minify_steps s)) = drop_prefix (minify_steps s).
Proof.
  unfold drop_prefix. destruct (starts_with PREFIX (minify_steps s)) eqn:E.
  2: { unfold minify_steps. apply py_strip_idem. }
  apply starts_with_true in E. rewrite PREFIX_eq in E. cbn [length] in E.
  set (B := skipn 11 (minify_steps s)) in *.
  pose proof (colon_ok_minify_steps s) as Hc.
  pose proof (py_strip_last (strip_structural (collapse_ws false
    (strip_block_comments (strip_line_comments false None s))))) as Hl.
  fold (minify_steps s) in Hl. rewrite E in Hc, Hl.
  apply py_strip_id.
  - change (colon_ok ([106; 97; 118; 97; 115; 99; 114; 105; 112; 116] ++ 58 :: B)
            = true) in Hc.
    apply colon_ok_app_r in Hc. cbn [colon_ok] in Hc.
    apply andb_prop in Hc as [Hc _]. exact Hc.
  - destruct B as [|b B'] eqn:EB; [reflexivity|].
    rewrite rev_app_distr, hd_ok_app in Hl; [exact Hl|].
    intros Hn. apply (f_equal (@length Z)) in Hn.
    rewrite length_rev in Hn. discriminate.
Qed.

(** * Claims *)

(** C1: whenever [minify_code] returns a string, its first 11
    characters are the literal [javascript:]. *)
Theorem minify_code_starts_with_prefix s w r :
  minify_code s w = Some r -> firstn 11 r = str "javascript:".
Proof.
  unfold minify_code. destruct (quote _ _) as [q|]; [|discriminate].
  intros [= <-]. reflexivity.
Qed.

Lemma minify_code_starts_with_prefix_witness :
  firstn 11 (str "javascript:void((function(){alert(1);})())") = str "javascript:".
Proof.
  apply (minify_code_starts_with_prefix (str "alert(1);") true). reflexivity.
Defined.

(** C2 (as stated, refuted): [X = "//a"] does not start with
    [javascript:] before or after stripping, yet prefixing it changes the
    output: in ["javascript://a"] the [//] follows a [:] and is kept as
    code, while ["//a"] alone is a comment and is removed. *)
Lemma minify_code_prefix_line_comment_counterexample :
  starts_with PREFIX (py_strip (str "//a")) = false
  /\ starts_with PREFIX (minify_steps (str "//a")) = false
  /\ minify_code (PREFIX ++ str "//a") false = Some (str "javascript://a")
  /\ minify_code (str "//a") false = Some (str "javascript:")
  /\ minify_code (PREFIX ++ str "//a") false <> minify_code (str "//a") false.
Proof. vm_compute. repeat split; try reflexivity. discriminate. Qed.

(** C2 (amended): for [X] that does not begin with [//] and whose
    minified, trimmed text does not begin with [javascript:],
    [minify_code ("javascript:" + X) w = minify_code X w]. *)
Theorem minify_code_prefix_idempotent X w :
  starts_with (str "//") X = false ->
  starts_with PREFIX (minify_steps X) = false ->
  minify_code (PREFIX ++ X) w = minify_code X w.
Proof.
  intros H1 H2. unfold minify_code, quoted_body.
  rewrite minify_steps_prefix by exact H1.
  unfold drop_prefix at 1. rewrite starts_with_app.
  replace (skipn 11 (PREFIX ++ minify_steps X)) with (minify_steps X)
    by (rewrite PREFIX_eq; reflexivity).
  unfold drop_prefix. rewrite H2. reflexivity.
Qed.

Lemma minify_code_prefix_idempotent_witness :
  minify_code (PREFIX ++ str "alert(1);") true = minify_code (str "alert(1);") true.
Proof. apply minify_code_prefix_idempotent; reflexivity. Defined.

(** C3: the decoded body (prefix stripped, percent-decoded, as
    [code_to_check] computes it) of [minify_code s true] is
    [void((function(){] + the decoded body of [minify_code s false] +
    [})())]. *)
Theorem minify_code_wrap_roundtrip s r1 r2 :
  minify_code s true = Some r1 -> minify_code s false = Some r2 ->
  code_to_check r1 = str "void((function(){" ++ code_to_check r2 ++ str "})())".
Proof.
  unfold minify_code.
  destruct (quote (quoted_body s true) SAFE_CHARS) as [q1|] eqn:E1; [|discriminate].
  destruct (quote (quoted_body s false) SAFE_CHARS) as [q2|] eqn:E2; [|discriminate].
  intros H1 H2.
  assert (R1 : r1 = PREFIX ++ q1) by congruence.
  assert (R2 : r2 = PREFIX ++ q2) by congruence.
  subst r1 r2. rewrite !code_to_check_prefix.
  rewrite (unquote_quote _ _ E1), (unquote_quote _ _ E2).
  unfold quoted_body, wrap_body. rewrite drop_prefix_stripped.
  apply py_strip_id.
  - reflexivity.
  - rewrite !rev_app_distr. reflexivity.
Qed.

Lemma minify_code_wrap_roundtrip_witness :
  code_to_check (str "javascript:void((function(){alert(1);})())")
  = str "void((function(){" ++ code_to_check (str "javascript:alert(1);")
    ++ str "})())".
Proof. apply (minify_code_wrap_roundtrip (str "alert(1);")); reflexivity. Defined.

(** C4: [SAFE_CHARS] is exactly the code points 33 to 126 without [%]
    (37), space (32) and [#] (35). *)
Theorem SAFE_CHARS_spec c :
  In c SAFE_CHARS <-> 33 <= c <= 126 /\ c <> 37 /\ c <> 32 /\ c <> 35.
Proof. apply SAFE_CHARS_In. Qed.

(** C5: the empty source gives [javascript:void((function(){})())]
    wrapped (every character of the body is safe, so quoting keeps it,
    and its decoded body is [void((function(){})())]) and [javascript:]
    unwrapped. *)
Theorem minify_code_empty :
  quote (str "void((function(){})())") SAFE_CHARS = Some (str "void((function(){})())")
  /\ minify_code [] true = Some (str "javascript:void((function(){})())")
  /\ code_to_check (str "javascript:void((function(){})())") = str "void((function(){})())"
  /\ minify_code [] false = Some (str "javascript:").
Proof. vm_compute. repeat split. Qed.

(** C6: a trailing [//] comment is removed, but a [//] right after a [:]
    (the [https://] of a string literal) is kept. *)
Theorem minify_code_comment_examples :
  option_map code_to_check (minify_code (str "var x=1; // c") false)
  = option_map code_to_check (minify_code (str "var x=1;") false)
  /\ option_map code_to_check (minify_code (str "var u=" ++ [34] ++ str "https://x.com"
                                                ++ [34] ++ str ";") false)
     = Some (str "var u=" ++ [34] ++ str "https://x.com" ++ [34] ++ str ";").
Proof. vm_compute. split; reflexivity. Qed.

(** C7: the two documented minification scenarios. *)
Theorem minify_code_scenarios :
  option_map code_to_check (minify_code (str "var x = 1; /* c */ var y = 2;") false)
  = Some (str "var x=1;var y=2;")
  /\ option_map code_to_check (minify_code (str "if ( x == 1 ) { y = 2; }") false)
     = Some (str "if(x==1){y=2;}").
Proof. vm_compute. split; reflexivity. Qed.

Lemma utf8_char_ascii c : 0 <= c < 128 -> utf8_char c = Some [c].
Proof. intros H. unfold utf8_char. zsimpl. reflexivity. Qed.

Lemma escaped_as_chunk c cb :
  utf8_char c = Some cb -> escaped_as c (flat_map (quote_byte SAFE_CHARS) cb).
Proof.
  intros E.
  assert (Hu : ~ In c SAFE_CHARS ->
               flat_map (quote_byte SAFE_CHARS) cb
               = flat_map (fun b => [37; hex_upper (b / 16); hex_upper (b mod 16)]) cb)
    by (intros Hn; apply flat_map_quote_unsafe, (utf8_char_unsafe_bytes c); assumption).
  assert (Hnot : forall d, d = 35 \/ d = 32 \/ d = 37 -> ~ In d SAFE_CHARS)
    by (intros d Hd Hin; apply SAFE_CHARS_In in Hin; lia).
  repeat split.
  - intros Hin. pose proof Hin as Hr. apply SAFE_CHARS_In in Hr.
    rewrite utf8_char_ascii in E by lia. injection E as <-.
    simpl. rewrite quote_byte_safe by exact Hin. reflexivity.
  - intros ->. rewrite Hu by (apply Hnot; auto).
    rewrite utf8_char_ascii in E by lia. injection E as <-. reflexivity.
  - intros ->. rewrite Hu by (apply Hnot; auto).
    rewrite utf8_char_ascii in E by lia. injection E as <-. reflexivity.
  - intros ->. rewrite Hu by (apply Hnot; auto).
    rewrite utf8_char_ascii in E by lia. injection E as <-. reflexivity.
  - intros Hn. exists cb. split; [exact E | apply Hu; exact Hn].
Qed.

(** C8: the output is [javascript:] followed by one chunk per character
    of the quoted body: a safe character literally, [#] as [%23], space
    as [%20], [%] as [%25], any other character as the uppercase-hex
    percent-escapes of its UTF-8 bytes. *)
Theorem minify_code_escaping s w r :
  minify_code s w = Some r ->
  exists chunks, r = str "javascript:" ++ concat chunks
    /\ Forall2 escaped_as (quoted_body s w) chunks.
Proof.
  unfold minify_code. destruct (quote (quoted_body s w) SAFE_CHARS) as [q|] eqn:Eq;
    [|discriminate].
  intros H. assert (R : r = PREFIX ++ q) by congruence. subst r.
  unfold quote in Eq. destruct (quoted_body s w) as [|c0 x0] eqn:Eb.
  - injection Eq as <-. exists []. split; [reflexivity | constructor].
  - rewrite <- Eb in Eq |- *.
    destruct (utf8_encode (quoted_body s w)) as [bs|] eqn:Ee; [|discriminate].
    injection Eq as <-.
    destruct (quote_chunks _ _ Ee) as [chunks [Hc Hf]].
    exists chunks. split; [rewrite Hc; reflexivity|].
    eapply Forall2_impl; [exact Hf|].
    intros c ch [cb [E ->]]. apply escaped_as_chunk. exact E.
Qed.

Lemma minify_code_escaping_witness :
  exists chunks,
    str "javascript:var%20color='%23fff';" = str "javascript:" ++ concat chunks
    /\ Forall2 escaped_as (quoted_body (str "var color = '#fff';") false) chunks.
Proof. apply (minify_code_escaping (str "var color = '#fff';") false). reflexivity. Defined.

(** C9 (as stated, refuted): the one-character string ["\ud800"] (a lone
    surrogate, a valid Python [str]) makes [quote] raise
    [UnicodeEncodeError]: [minify_code] returns no string. *)
Lemma minify_code_surrogate_counterexample :
  0 <= 55296 <= 1114111
  /\ minify_code [55296] true = None
  /\ minify_code [55296] false = None
  /\ ~ (forall s w, exists r, minify_code s w = Some r).
Proof.
  split; [lia|]. split; [reflexivity|]. split; [reflexivity|].
  intros H. destruct (H [55296] true) as [r Hr]. vm_compute in Hr. discriminate.
Qed.

(** C9 (amended): on every string without surrogate code points (every
    text a UTF-8 file read yields), [minify_code] returns a string, and
    one string only. *)
Theorem minify_code_total s w :
  scalar_str s ->
  exists r, minify_code s w = Some r
            /\ (forall r', minify_code s w = Some r' -> r' = r).
Proof.
  intros Hs. destruct (utf8_encode_scalar _ (quoted_body_scalar s w Hs)) as [bs Hbs].
  unfold minify_code.
  destruct (quote (quoted_body s w) SAFE_CHARS) as [q|] eqn:Eq.
  - exists (PREFIX ++ q). split; [reflexivity | congruence].
  - exfalso. unfold quote in Eq. destruct (quoted_body s w) as [|c0 x0] eqn:Eb;
      [discriminate|]. rewrite Hbs in Eq. discriminate.
Qed.

Lemma minify_code_total_witness :
  exists r, minify_code (str "alert(1);") true = Some r
            /\ (forall r', minify_code (str "alert(1);") true = Some r' -> r' = r).
Proof. apply minify_code_total. unfold scalar_str. simpl. repeat constructor. Defined.

(** C10: when syntax checking is on and the check of the decoded body
    fails, [minify_bookmarklet] ends with exit status 1 and leaves the
    world as it was: the output file keeps its previous content. *)
Theorem minify_bookmarklet_check_failure_keeps_output check_syntax w
    input_file output_file to_clipboard wrap js_code bookmarklet :
  files w !! input_file = Some js_code ->
  minify_code js_code wrap = Some bookmarklet ->
  check_syntax (code_to_check bookmarklet) = false ->
  minify_bookmarklet check_syntax w input_file output_file to_clipboard true wrap
    = (w, Exit 1)
  /\ files (fst (minify_bookmarklet check_syntax w input_file output_file
                   to_clipboard true wrap)) !! output_file
     = files w !! output_file.
Proof.
  intros H1 H2 H3. unfold minify_bookmarklet. rewrite H1, H2, H3.
  split; reflexivity.
Qed.

Lemma minify_bookmarklet_check_failure_keeps_output_witness :
  minify_bookmarklet (fun _ => false) world_example "in.js" "out.js" false true true
    = (world_example, Exit 1)
  /\ files (fst (minify_bookmarklet (fun _ => false) world_example "in.js" "out.js"
                   false true true)) !! "out.js"%string
     = Some (str "old").
Proof.
  destruct (minify_bookmarklet_check_failure_keeps_output (fun _ => false)
              world_example "in.js" "out.js" false true (str "bad(")
              (str "javascript:void((function(){bad(})())"))
    as [Ha Hb]; try reflexivity.
  split; [exact Ha | rewrite Hb; reflexivity].
Defined.

(** * Further properties of the code *)

(** ** Helpers *)


Lemma hex_upper_range d : 0 <= d < 16 -> 48 <= hex_upper d <= 70.
Proof. unfold hex_upper. intros H. destruct (Z.ltb_spec d 10); lia. Qed.

Lemma quote_byte_url b :
  0 <= b < 256 -> Forall (fun c => 33 <= c <= 126 /\ c <> 35) (quote_byte SAFE_CHARS b).
Proof.
  intros Hb. destruct (in_dec Z.eq_dec b SAFE_CHARS) as [Hs|Hs].
  - rewrite (quote_byte_safe _ Hs). apply SAFE_CHARS_In in Hs.
    constructor; [lia | constructor].
  - rewrite (quote_byte_unsafe _ Hs).
    assert (H1 : 0 <= b / 16 < 16) by (Z.div_mod_to_equations; lia).
    assert (H2 : 0 <= b mod 16 < 16) by (Z.div_mod_to_equations; lia).
    apply hex_upper_range in H1, H2.
    repeat constructor; lia.
Qed.

(** The minified text (wrap off) sits inside the output of step 4. *)
Lemma quoted_body_false_infix s :
  exists p q,
    strip_structural (collapse_ws false (strip_block_comments
                                           (strip_line_comments false None s)))
    = p ++ quoted_body s false ++ q.
Proof.
  unfold quoted_body, wrap_body. rewrite drop_prefix_stripped.
  set (z := strip_structural _).
  destruct (py_strip_infix z) as [p1 [q1 H1]].
  assert (Hd : exists p2, minify_steps s = p2 ++ drop_prefix (minify_steps s)).
  { unfold drop_prefix. destruct (starts_with _ _).
    - exists (firstn 11 (minify_steps s)). symmetry. apply firstn_skipn.
    - exists []. reflexivity. }
  destruct Hd as [p2 H2].
  exists (p1 ++ p2), q1. rewrite H1 at 1.
  change (py_strip z) with (minify_steps s). rewrite H2 at 1.
  rewrite <- !app_assoc. reflexivity.
Qed.





Lemma is_structural_not_space c : is_structural c = true -> is_space c = false.
Proof.
  unfold is_structural. intros H. apply existsb_Zeq_In in H. vm_compute in H.
  repeat (destruct H as [<-|H]; [reflexivity|]). contradiction.
Qed.

Lemma space_not_structural c : is_space c = true -> is_structural c = false.
Proof.
  intros H. destruct (is_structural c) eqn:E; [|reflexivity].
  rewrite (is_structural_not_space _ E) in H. discriminate.
Qed.


(** After a whitespace character the scan does not stop at, step 4
    continues with no structural character. *)
Lemma strip_structural_after_space c t :
  is_space c = true -> match_structural (c :: t) = None ->
  hd_struct (strip_structural t) = false.
Proof.
  intros Hc E. destruct t as [|c' t']; [reflexivity|].
  unfold match_structural in E. cbn [skip_ws] in E. rewrite Hc in E.
  destruct (is_space c') eqn:Ec'.
  - assert (E' : match_structural (c' :: t') = None).
    { unfold match_structural. cbn [skip_ws]. rewrite Ec'. exact E. }
    rewrite strip_structural_eq, E'. exact (space_not_structural _ Ec').
  - cbv beta iota in E.
    destruct (is_structural c') eqn:Es; [discriminate|].
    destruct (strip_structural_hd c' t' Ec') as [u ->]. exact Es.
Qed.

Lemma ws_struct_ok_strip_structural s : ws_struct_ok (strip_structural s) = true.
Proof.
  induction s as [s IH] using (induction_ltof1 _ (@length Z)).
  destruct s as [|c t]; [reflexivity|].
  rewrite strip_structural_eq.
  destruct (match_structural (c :: t)) as [[d r]|] eqn:E.
  - pose proof E as E0. apply match_structural_shorter in E0.
    unfold match_structural in E.
    destruct (skip_ws (c :: t)) as [|d' r'] eqn:Es; [discriminate|].
    destruct (is_structural d') eqn:Ed; [|discriminate].
    injection E as <- <-.
    cbn [ws_struct_ok]. rewrite (is_structural_not_space _ Ed), Ed.
    rewrite (strip_structural_hd_ok _ (skip_ws_hd r')).
    rewrite (IH _ E0). reflexivity.
  - cbn [ws_struct_ok]. rewrite (IH t ltac:(unfold ltof; simpl; lia)).
    destruct (is_space c) eqn:Ec.
    + rewrite (strip_structural_after_space c t Ec E), (space_not_structural c Ec).
      reflexivity.
    + assert (Hs : is_structural c = false).
      { rewrite match_structural_hd in E by exact Ec.
        destruct (is_structural c); [discriminate|reflexivity]. }
      rewrite Hs. reflexivity.
Qed.

Lemma ws_struct_ok_app_l a b : ws_struct_ok (a ++ b) = true -> ws_struct_ok a = true.
Proof.
  induction a as [|x a IH]; [reflexivity|]. cbn [app ws_struct_ok].
  intros H. apply andb_prop in H as [H1 H2]. rewrite (IH H2), andb_true_r.
  destruct a as [|y a'].
  - cbn [hd_struct hd_ok negb]. rewrite !andb_false_r. reflexivity.
  - exact H1.
Qed.

Lemma ws_struct_ok_app_r a b : ws_struct_ok (a ++ b) = true -> ws_struct_ok b = true.
Proof.
  induction a as [|x a IH]; [auto|]. cbn [app ws_struct_ok].
  intros H. apply andb_prop in H as [_ H]. auto.
Qed.

Lemma find_close_cons_none c t : find_close (c :: t) = None -> find_close t = None.
Proof.
  intros H. destruct t as [|c2 t2]; [reflexivity|].
  change (find_close (c :: c2 :: t2))
    with (if (c =? 42) && (c2 =? 47) then Some t2 else find_close (c2 :: t2)) in H.
  destruct (_ && _); [discriminate|exact H].
Qed.

Lemma sub_block_comments_no_close f s : find_close s = None -> sub_block_comments f s = s.
Proof.
  revert s. induction f as [|f IH]; intros s H; [reflexivity|].
  destruct s as [|c t]; [reflexivity|].
  destruct t as [|c2 t2]; [reflexivity|].
  pose proof (find_close_cons_none _ _ H) as Ht.
  cbn [sub_block_comments]. rewrite (IH _ Ht).
  destruct (_ && _); [|reflexivity].
  rewrite (find_close_cons_none _ _ Ht). reflexivity.
Qed.

(** ** Properties *)






(** Every character of a bookmarklet is printable ASCII (33 to 126),
    and none is [#]: no space, control, non-ASCII or fragment
    character reaches the URL. *)
Theorem minify_code_url_safe s w r :
  minify_code s w = Some r -> Forall (fun c => 33 <= c <= 126 /\ c <> 35) r.
Proof.
  unfold minify_code.
  destruct (quote (quoted_body s w) SAFE_CHARS) as [q|] eqn:E; [|discriminate].
  intros H. assert (R : r = PREFIX ++ q) by congruence. subst r.
  apply Forall_app. split.
  - rewrite PREFIX_eq. repeat constructor; lia.
  - unfold quote in E. destruct (quoted_body s w) as [|c0 x0].
    + injection E as <-. constructor.
    + destruct (utf8_encode (c0 :: x0)) as [bs|] eqn:Eb; [|discriminate].
      injection E as <-. apply utf8_encode_bytes in Eb. clear H.
      induction bs as [|b bs IH]; [constructor|].
      inversion Eb as [|? ? Hb Hbs]. cbn [flat_map]. apply Forall_app.
      split; [exact (quote_byte_url _ Hb) | exact (IH Hbs)].
Qed.

Lemma minify_code_url_safe_witness :
  Forall (fun c => 33 <= c <= 126 /\ c <> 35) (str "javascript:a%20%23%C3%A9").
Proof.
  apply (minify_code_url_safe ([97; 32; 35; 233]) false). reflexivity.
Defined.


(** In the minified code no whitespace character is next to one of the
    structural characters [{}()[]=+-*/;:,<>], on either side. *)
Theorem minify_code_body_tight_structural s : ws_struct_ok (quoted_body s false) = true.
Proof.
  destruct (quoted_body_false_infix s) as [p [q H]].
  pose proof (ws_struct_ok_strip_structural
    (collapse_ws false (strip_block_comments (strip_line_comments false None s))))
    as Hw.
  rewrite H in Hw. apply ws_struct_ok_app_r, ws_struct_ok_app_l in Hw. exact Hw.
Qed.



(** Step 1 removes comments up to the end of the line only: the number
    of newlines is unchanged. *)
Theorem strip_line_comments_keeps_newlines in_comment prev s :
  count_occ Z.eq_dec (strip_line_comments in_comment prev s) 10
  = count_occ Z.eq_dec s 10.
Proof.
  revert in_comment prev.
  induction s as [s IH] using (induction_ltof1 _ (@length Z)).
  intros b prev. destruct s as [|c t]; [reflexivity|].
  cbn [strip_line_comments]. destruct b.
  - destruct (Z.eqb_spec c 10) as [->|Hc].
    + cbn [count_occ]. rewrite IH by (unfold ltof; simpl; lia). reflexivity.
    + rewrite IH by (unfold ltof; simpl; lia). cbn [count_occ].
      destruct (Z.eq_dec c 10); [contradiction|reflexivity].
  - destruct t as [|c2 t2]; [reflexivity|].
    destruct ((c =? 47) && (c2 =? 47) && _) eqn:E.
    + apply andb_prop in E as [E _]. apply andb_prop in E as [E1 E2].
      apply Z.eqb_eq in E1, E2. subst.
      rewrite IH by (unfold ltof; simpl; lia). cbn [count_occ].
      destruct (Z.eq_dec 47 10); [lia|reflexivity].
    + cbn [count_occ]. rewrite IH by (unfold ltof; simpl; lia).
      cbn [count_occ]. reflexivity.
Qed.

(** Step 2 leaves a text with no [*/] unchanged: an unterminated [/*]
    comment is not removed. *)
Theorem strip_block_comments_unterminated s :
  find_close s = None -> strip_block_comments s = s.
Proof. intros H. apply sub_block_comments_no_close. exact H. Qed.

Lemma strip_block_comments_unterminated_witness :
  strip_block_comments (str "a /* b") = str "a /* b".
Proof. apply strip_block_comments_unterminated. reflexivity. Defined.

(** [unquote] undoes [quote] with [SAFE_CHARS] on every string without
    surrogates, so the decoded bookmarklet is the minified text. *)
Theorem quote_unquote_roundtrip x :
  scalar_str x -> exists q, quote x SAFE_CHARS = Some q /\ unquote q = x.
Proof.
  intros Hx. destruct (utf8_encode_scalar x Hx) as [bs Hbs].
  assert (Hq : exists q, quote x SAFE_CHARS = Some q).
  { unfold quote. destruct x as [|c t]; [eexists; reflexivity|].
    rewrite Hbs. eexists; reflexivity. }
  destruct Hq as [q Hq]. exists q. split; [exact Hq | exact (unquote_quote _ _ Hq)].
Qed.

Lemma quote_unquote_roundtrip_witness :
  exists q, quote [35; 233] SAFE_CHARS = Some q /\ unquote q = [35; 233].
Proof. apply quote_unquote_roundtrip. unfold scalar_str. simpl. repeat constructor. Defined.
